(** * The Job state machine of the job queue (packages/core/src/job-queue/job.ts)

    A shallow embedding of the [Job] class and proofs about its lifecycle:
    [start], [setProgress], [complete], [fail], [defer], [on] and the
    private [fireEvent].

    Modelling conventions.
    - A JavaScript [number] is an integer of [Z]; the code only compares
      numbers, adds one to them and takes a minimum, all of which are exact
      on integers in the safe range.  NaN, infinities and fractions are
      outside the model.
    - A [Date] is its time value, a [Z]; [new Date()] inside a method is
      the argument [now] of the method.
    - A plain value is a [JsValue]: a primitive, an [Error] instance or a
      plain object.  Reading [message] from such a value and converting it
      with [String] never throws.  The argument of [fail], of type [any],
      is a [JsAny]: a plain value, or an object on which reading [message]
      or converting with [String] may throw, such as
      [Object.create(null)] or an object with a getter.
    - A listener is a handle; what the function behind the handle does when
      it is called is given by [call], a variable of the section.  A
      listener observes the job it receives and either returns or throws;
      it does not call back into the job.
    - A method is a computation of the monad [M]: it transforms the job,
      records the listener calls it makes and completes normally or by a
      throw. *)

From Stdlib Require Import ZArith List String Bool Lia DecimalString.
Import ListNotations.
Local Open Scope string_scope.
Local Open Scope list_scope.
Local Open Scope Z_scope.

(** ** JavaScript values *)

#[warnings="-register-all"]
Inductive JsValue : Type :=
| JsUndefined
| JsNull
| JsBool (b : bool)
| JsNum (n : Z)
| JsStr (s : string)
| JsError (name message : string)      (* an Error instance *)
| JsObject (message : option JsValue). (* a plain object, with or without
                                          an own data property message *)

(** ToBoolean of ECMAScript: the test of [c ? a : b] and of [!!c]. *)
Definition ToBoolean (v : JsValue) : bool :=
  match v with
  | JsUndefined | JsNull => false
  | JsBool b => b
  | JsNum n => negb (n =? 0)
  | JsStr s => negb (s =? "")%string
  | JsError _ _ | JsObject _ => true
  end.

(** [v?.message]: undefined on undefined and null (the short circuit of
    [?.]) and on the primitives, whose prototypes have no such property. *)
Definition get_message (v : JsValue) : JsValue :=
  match v with
  | JsError _ m => JsStr m
  | JsObject (Some m) => m
  | _ => JsUndefined
  end.

Definition decimal (n : Z) : string := NilZero.string_of_int (Z.to_int n).

(** [String(v)]; on an Error instance this is Error.prototype.toString. *)
Definition ToString (v : JsValue) : string :=
  match v with
  | JsUndefined => "undefined"
  | JsNull => "null"
  | JsBool true => "true"
  | JsBool false => "false"
  | JsNum n => decimal n
  | JsStr s => s
  | JsError name msg =>
      if (name =? "")%string then msg
      else if (msg =? "")%string then name
      else (name ++ ": " ++ msg)%string
  | JsObject _ => "[object Object]"
  end.

Definition Math_min (a b : Z) : Z := if a <? b then a else b.

(** ** Types imported by job.ts *)

(** Modelled from the spec: the enum [JobState] of
    @vendure/common/lib/generated-types, whose declaration is not part of
    the sources; the spec lists its five members. *)
Inductive JobState : Type := PENDING | RUNNING | COMPLETED | FAILED | RETRYING.

Definition JobState_eqb (a b : JobState) : bool :=
  match a, b with
  | PENDING, PENDING | RUNNING, RUNNING | COMPLETED, COMPLETED
  | FAILED, FAILED | RETRYING, RETRYING => true
  | _, _ => false
  end.

(** Modelled from the spec: the type [ID] of
    @vendure/common/lib/shared-types, an opaque identifier; a string or a
    number. *)
Inductive ID : Type := IdStr (s : string) | IdNum (n : Z).

Definition Date : Type := Z.

Inductive JobEventType : Type := EvStart | EvComplete | EvFail.

(** A listener is named by a handle. *)
Definition Listener : Type := nat.

(** The object literal [{ start: [], complete: [], fail: [] }]. *)
Module Listeners.

Record t : Type := mk {
  start : list Listener;
  complete : list Listener;
  fail : list Listener
}.

Definition empty : t := mk [] [] [].

(** [ls[type]] *)
Definition get (ty : JobEventType) (ls : t) : list Listener :=
  match ty with
  | EvStart => start ls
  | EvComplete => complete ls
  | EvFail => fail ls
  end.

(** [ls[type].push(l)] *)
Definition push (ty : JobEventType) (l : Listener) (ls : t) : t :=
  match ty with
  | EvStart => mk (start ls ++ [l]) (complete ls) (fail ls)
  | EvComplete => mk (start ls) (complete ls ++ [l]) (fail ls)
  | EvFail => mk (start ls) (complete ls) (fail ls ++ [l])
  end.

End Listeners.

(** How a call completes: normally with a value, or by a throw. *)
Inductive Completion (A : Type) : Type :=
| Normal (a : A)
| Throw (e : JsValue).
Arguments Normal {A} a.
Arguments Throw {A} e.

(** ** Values of type any *)

(** What [fail] may be passed: a plain value, or an object given by what
    reading its [message] and converting it with [String] do, each of
    which returns or throws. *)
Inductive JsAny : Type :=
| Plain (v : JsValue)
| Exotic (message : Completion JsValue) (string : Completion string).

Coercion Plain : JsValue >-> JsAny.


(** [err?.message] *)
Definition read_message (err : JsAny) : Completion JsValue :=
  match err with
  | Plain v => Normal (get_message v)
  | Exotic m _ => m
  end.

(** [String(err)] *)
Definition convert (err : JsAny) : Completion string :=
  match err with
  | Plain v => Normal (ToString v)
  | Exotic _ s => s
  end.

(** [err?.message ? err.message : String(err)] *)
Definition error_of (err : JsAny) : Completion JsValue :=
  match read_message err with
  | Throw x => Throw x
  | Normal m =>
      if ToBoolean m then read_message err
      else match convert err with
           | Normal s => Normal (JsStr s)
           | Throw x => Throw x
           end
  end.

Arguments error_of : simpl never.

Section JobOf.

(** The payload type, [T] of [Job<T>]. *)
Context {T : Type}.

(** Modelled from the spec: [JobConfig<T>] of ./types, whose declaration is
    not part of the sources; the spec lists its fields, [queueName] and
    [data] required and the others optional. *)
Record JobConfig : Type := mkJobConfig {
  cfg_queueName : string;
  cfg_data : T;
  cfg_id : option ID;
  cfg_state : option JobState;
  cfg_retries : option Z;
  cfg_attempts : option Z;
  cfg_progress : option Z;
  cfg_createdAt : option Date;
  cfg_result : JsValue;
  cfg_error : JsValue;
  cfg_startedAt : option Date;
  cfg_settledAt : option Date
}.

(** The fields of the class, in the order of their declaration. *)
Record Job : Type := mkJob {
  id : option ID;
  queueName : string;
  retries : Z;
  createdAt : Date;
  _data : T;
  _state : JobState;
  _progress : Z;
  _result : JsValue;
  _error : JsValue;
  _attempts : Z;
  _startedAt : option Date;
  _settledAt : option Date;
  eventListeners : Listeners.t
}.

(** *** Getters *)

Definition name (j : Job) : string := queueName j.
Definition data (j : Job) : T := _data j.
Definition state (j : Job) : JobState := _state j.
Definition progress (j : Job) : Z := _progress j.
Definition result (j : Job) : JsValue := _result j.
Definition error (j : Job) : JsValue := _error j.
(** [!!this._settledAt]: a Date object is truthy, undefined is not. *)
Definition isSettled (j : Job) : bool :=
  match _settledAt j with Some _ => true | None => false end.
Definition startedAt (j : Job) : option Date := _startedAt j.
Definition settledAt (j : Job) : option Date := _settledAt j.
Definition attempts (j : Job) : Z := _attempts j.
Definition duration (now : Date) (j : Job) : Z :=
  let end_ := match _settledAt j with Some d => d | None => now end in
  end_ - match _startedAt j with Some d => d | None => end_ end.

(** *** Assignments to the mutable fields *)

Definition set_state (s : JobState) (j : Job) : Job :=
  mkJob (id j) (queueName j) (retries j) (createdAt j) (_data j) s
        (_progress j) (_result j) (_error j) (_attempts j) (_startedAt j)
        (_settledAt j) (eventListeners j).
Definition set_progress (p : Z) (j : Job) : Job :=
  mkJob (id j) (queueName j) (retries j) (createdAt j) (_data j) (_state j)
        p (_result j) (_error j) (_attempts j) (_startedAt j)
        (_settledAt j) (eventListeners j).
Definition set_result (r : JsValue) (j : Job) : Job :=
  mkJob (id j) (queueName j) (retries j) (createdAt j) (_data j) (_state j)
        (_progress j) r (_error j) (_attempts j) (_startedAt j)
        (_settledAt j) (eventListeners j).
Definition set_error (e : JsValue) (j : Job) : Job :=
  mkJob (id j) (queueName j) (retries j) (createdAt j) (_data j) (_state j)
        (_progress j) (_result j) e (_attempts j) (_startedAt j)
        (_settledAt j) (eventListeners j).
Definition set_attempts (a : Z) (j : Job) : Job :=
  mkJob (id j) (queueName j) (retries j) (createdAt j) (_data j) (_state j)
        (_progress j) (_result j) (_error j) a (_startedAt j)
        (_settledAt j) (eventListeners j).
Definition set_startedAt (d : option Date) (j : Job) : Job :=
  mkJob (id j) (queueName j) (retries j) (createdAt j) (_data j) (_state j)
        (_progress j) (_result j) (_error j) (_attempts j) d
        (_settledAt j) (eventListeners j).
Definition set_settledAt (d : option Date) (j : Job) : Job :=
  mkJob (id j) (queueName j) (retries j) (createdAt j) (_data j) (_state j)
        (_progress j) (_result j) (_error j) (_attempts j) (_startedAt j)
        d (eventListeners j).
Definition set_eventListeners (ls : Listeners.t) (j : Job) : Job :=
  mkJob (id j) (queueName j) (retries j) (createdAt j) (_data j) (_state j)
        (_progress j) (_result j) (_error j) (_attempts j) (_startedAt j)
        (_settledAt j) ls.

(** *** The constructor *)

(** [x || d] on an optional number: 0 is falsy as undefined is. *)
Definition num_or (x : option Z) (d : Z) : Z :=
  match x with
  | Some n => if n =? 0 then d else n
  | None => d
  end.

(** [config.id || null] *)
Definition id_or_null (x : option ID) : option ID :=
  match x with
  | Some (IdStr s) => if (s =? "")%string then None else x
  | Some (IdNum n) => if n =? 0 then None else x
  | None => None
  end.

Definition new_Job (now : Date) (config : JobConfig) : Job :=
  {| queueName := cfg_queueName config;
     _data := cfg_data config;
     id := id_or_null (cfg_id config);
     _state := match cfg_state config with Some s => s | None => PENDING end;
     retries := num_or (cfg_retries config) 0;
     _attempts := num_or (cfg_attempts config) 0;
     _progress := num_or (cfg_progress config) 0;
     createdAt := match cfg_createdAt config with Some d => d | None => now end;
     _result := cfg_result config;
     _error := cfg_error config;
     _startedAt := cfg_startedAt config;
     _settledAt := cfg_settledAt config;
     eventListeners := Listeners.empty |}.

(** ** The monad of methods *)

(** One call of a listener: the handle and the job it was passed. *)
Definition Call : Type := (Listener * Job)%type.

Record Run (A : Type) : Type := mkRun {
  job : Job;                 (* the job when the computation ends *)
  calls : list Call;         (* the listener calls made, oldest first *)
  completion : Completion A
}.
Arguments mkRun {A} _ _ _.
Arguments job {A} _.
Arguments calls {A} _.
Arguments completion {A} _.

Definition M (A : Type) : Type := Job -> Run A.

Definition ret {A : Type} (a : A) : M A :=
  fun j => mkRun j [] (Normal a).

Definition bind {A B : Type} (m : M A) (k : A -> M B) : M B :=
  fun j =>
    let r := m j in
    match completion r with
    | Normal a =>
        let r' := k a (job r) in
        mkRun (job r') (calls r ++ calls r') (completion r')
    | Throw e => mkRun (job r) (calls r) (Throw e)
    end.

(** An expression that does not touch the job. *)
Definition eval {A : Type} (c : Completion A) : M A :=
  fun j => mkRun j [] c.

Definition gets {A : Type} (f : Job -> A) : M A :=
  fun j => mkRun j [] (Normal (f j)).

Definition modify (f : Job -> Job) : M unit :=
  fun j => mkRun (f j) [] (Normal tt).

Notation "x <- m ;; k" := (bind m (fun x => k))
  (at level 61, m at next level, right associativity).
Notation "m ;; k" := (bind m (fun _ => k))
  (at level 61, right associativity).

(** What the function behind a handle does with the job it is passed:
    [None] when it returns, [Some e] when it throws [e]. *)
Variable call : Listener -> Job -> option JsValue.

(** [listener(this)] *)
Definition invoke (l : Listener) : M unit :=
  fun j =>
    mkRun j [(l, j)]
          match call l j with
          | None => Normal tt
          | Some e => Throw e
          end.

(** [for (const listener of ls) { listener(this); }] *)
Fixpoint for_of (ls : list Listener) : M unit :=
  match ls with
  | [] => ret tt
  | l :: ls' => invoke l ;; for_of ls'
  end.

(** ** The methods *)

Definition fireEvent (eventType : JobEventType) : M unit :=
  ls <- gets (fun this => Listeners.get eventType (eventListeners this)) ;;
  for_of ls.

Definition start (now : Date) : M unit :=
  s <- gets _state ;;
  if JobState_eqb s PENDING || JobState_eqb s RETRYING then
    modify (set_state RUNNING) ;;
    modify (set_startedAt (Some now)) ;;
    a <- gets _attempts ;;
    modify (set_attempts (a + 1)) ;;
    fireEvent EvStart
  else ret tt.

Definition setProgress (percent : Z) : M unit :=
  modify (set_progress (Math_min percent 100)).

Definition complete (now : Date) (result : JsValue) : M unit :=
  modify (set_result result) ;;
  modify (set_progress 100) ;;
  modify (set_state COMPLETED) ;;
  modify (set_settledAt (Some now)) ;;
  fireEvent EvComplete.

(** [fail()] without an argument is [fail JsUndefined]. *)
Definition fail (now : Date) (err : JsAny) : M unit :=
  e <- eval (error_of err) ;;
  modify (set_error e) ;;
  modify (set_progress 0) ;;
  r <- gets retries ;;
  a <- gets _attempts ;;
  (if r >=? a then
     modify (set_state RETRYING)
   else
     modify (set_state FAILED) ;;
     modify (set_settledAt (Some now))) ;;
  fireEvent EvFail.

Definition defer : M unit :=
  s <- gets _state ;;
  if JobState_eqb s RUNNING then
    modify (set_state PENDING) ;;
    modify (set_attempts 0)
  else ret tt.

Definition on (eventType : JobEventType) (listener : Listener) : M unit :=
  l <- gets eventListeners ;;
  modify (set_eventListeners (Listeners.push eventType listener l)).

End JobOf.

Arguments JobConfig : clear implicits.
Arguments Job : clear implicits.
Arguments Run : clear implicits.
Arguments M : clear implicits.
Arguments mkRun {T A} _ _ _.
Arguments job {T A} _.
Arguments calls {T A} _.
Arguments completion {T A} _.

(** ** Sequences of calls *)

Section Sequences.

Context {T : Type}.
Variable call : Listener -> Job T -> option JsValue.

(** One call of a public method by the owner of the job. *)
Inductive Op : Type :=
| OpStart
| OpSetProgress (percent : Z)
| OpComplete (result : JsValue)
| OpFail (err : JsAny)
| OpDefer
| OpOn (eventType : JobEventType) (listener : Listener).

Definition perform (now : Date) (op : Op) : M T unit :=
  match op with
  | OpStart => start call now
  | OpSetProgress p => setProgress p
  | OpComplete r => complete call now r
  | OpFail e => fail call now e
  | OpDefer => defer
  | OpOn ty l => on ty l
  end.

(** The job after a sequence of calls, each made at its own time.  The
    owner goes on with the job whether a call returned or threw. *)
Fixpoint run_ops (ops : list (Date * Op)) (j : Job T) : Job T :=
  match ops with
  | [] => j
  | (now, op) :: rest => run_ops rest (job (perform now op j))
  end.

Definition terminal (s : JobState) : bool :=
  match s with
  | COMPLETED | FAILED => true
  | PENDING | RUNNING | RETRYING => false
  end.

Definition is_start (op : Op) : bool :=
  match op with OpStart => true | _ => false end.

Definition is_fail (op : Op) : bool :=
  match op with OpFail _ => true | _ => false end.

(** [fail] is never called on a COMPLETED job that has retries left. *)
Fixpoint orderly (ops : list (Date * Op)) (j : Job T) : bool :=
  match ops with
  | [] => true
  | (now, op) :: rest =>
      negb (is_fail op && JobState_eqb (state j) COMPLETED
            && (retries j >=? attempts j))
      && orderly rest (job (perform now op j))
  end.


(** The listener calls of a loop that is not interrupted. *)
Definition passed (j : Job T) (ls : list Listener) : list (Call (T:=T)) :=
  map (fun l => (l, j)) ls.

Definition returns (j : Job T) (l : Listener) : Prop := call l j = None.

(** A run fires an event on the listeners [ls]: it calls them in the order
    of the array, each with the job the run ends with; all of them, and it
    returns, when none throws; those up to the first one that throws, and
    it throws what that one threw, otherwise. *)
Definition fires (ls : list Listener) (r : Run T unit) : Prop :=
  (Forall (returns (job r)) ls
   /\ calls r = passed (job r) ls
   /\ completion r = Normal tt)
  \/ (exists pre l e post,
         ls = pre ++ l :: post
         /\ Forall (returns (job r)) pre
         /\ call l (job r) = Some e
         /\ calls r = passed (job r) (pre ++ [l])
         /\ completion r = Throw e).

(** A job built by the constructor from a configuration that asks for
    [n] retries and leaves state, attempts and settledAt out. *)
Definition fresh_job (now : Date) (n : Z) (c : JobConfig T) : Job T :=
  new_Job now
    (mkJobConfig (cfg_queueName c) (cfg_data c) (cfg_id c) None (Some n) None
       (cfg_progress c) (cfg_createdAt c) (cfg_result c) (cfg_error c)
       (cfg_startedAt c) None).

(** What the lifecycle keeps true: settledAt is there exactly in the
    terminal states, and a FAILED job has used up its retries. *)
Definition settled_inv (j : Job T) : Prop :=
  isSettled j = terminal (state j)
  /\ (state j = FAILED -> retries j < attempts j).

End Sequences.

(** ** Concrete jobs *)

Definition emails : JobConfig unit :=
  mkJobConfig "send-email" tt None None None None None None
              JsUndefined JsUndefined None None.

(** Listeners that all return. *)
Definition quiet : Listener -> Job unit -> option JsValue :=
  fun _ _ => None.

(** Listener 0 throws, the others return. *)
Definition first_throws : Listener -> Job unit -> option JsValue :=
  fun l _ =>
    match l with
    | O => Some (JsStr "listener failed")
    | S _ => None
    end.

(** A job created at time 0 with two retries. *)
Definition job2 : Job unit := fresh_job 0 2 emails.

(** The same job with listeners 0 and 1 registered for complete, in this
    order, and listener 2 for start. *)
Definition watched : Job unit :=
  run_ops quiet
    [(1, OpOn EvComplete 0%nat); (2, OpOn EvComplete 1%nat);
     (3, OpOn EvStart 2%nat)]
    job2.
(** ** Configurations and call sequences of the further properties *)

Section Scenarios.

Context {T : Type}.


(** Attempts that all fail: for each one the time of [start], the time of
    [fail] and the argument of [fail]. *)
Definition failing_attempts (l : list (Date * Date * JsValue))
  : list (Date * Op) :=
  flat_map (fun a : Date * Date * JsValue =>
              [(fst (fst a), OpStart); (snd (fst a), OpFail (snd a))])
           l.

(** Calls of [on] for one event type. *)
Definition registrations (ty : JobEventType) (l : list (Date * Listener))
  : list (Date * Op) :=
  map (fun r => (fst r, OpOn ty (snd r))) l.

(** The event a method fires, if it fires one. *)
Definition event_of (op : Op) : option JobEventType :=
  match op with
  | OpStart => Some EvStart
  | OpComplete _ => Some EvComplete
  | OpFail _ => Some EvFail
  | OpSetProgress _ | OpDefer | OpOn _ _ => None
  end.

Definition JobEventType_eqb (a b : JobEventType) : bool :=
  match a, b with
  | EvStart, EvStart | EvComplete, EvComplete | EvFail, EvFail => true
  | _, _ => false
  end.

Definition is_on (op : Op) : bool :=
  match op with OpOn _ _ => true | _ => false end.

Definition is_complete (op : Op) : bool :=
  match op with OpComplete _ => true | _ => false end.

Definition is_defer (op : Op) : bool :=
  match op with OpDefer => true | _ => false end.

(** The number of calls of [start] in a sequence. *)
Definition count_starts (ops : list (Date * Op)) : Z :=
  Z.of_nat (List.length (filter (fun o => is_start (snd o)) ops)).

(** No call of [setProgress] in the sequence has a negative argument. *)
Definition progress_args_nonneg (ops : list (Date * Op)) : bool :=
  forallb (fun o => match snd o with
                    | OpSetProgress p => 0 <=? p
                    | _ => true
                    end) ops.

(** The calls are made at times that do not decrease, from [t] on. *)
Fixpoint chronological (t : Date) (ops : list (Date * Op)) : bool :=
  match ops with
  | [] => true
  | (t', _) :: rest => (t <=? t') && chronological t' rest
  end.

(** The time of the last call of a sequence that begins at [t]. *)
Fixpoint last_time (t : Date) (ops : list (Date * Op)) : Date :=
  match ops with
  | [] => t
  | (t', _) :: rest => last_time t' rest
  end.

(** By time [c] the job was started, if it was, and was settled, if it
    was, no earlier than it was started. *)
Definition timed (c : Date) (j : Job T) : Prop :=
  match startedAt j, settledAt j with
  | Some s, Some e => s <= e /\ e <= c
  | Some s, None => s <= c
  | None, Some e => e <= c
  | None, None => True
  end.

(** The fields that are declared readonly and the payload. *)
Definition fixed_fields (j : Job T)
  : option ID * string * Z * Date * T :=
  (id j, queueName j, retries j, createdAt j, data j).

End Scenarios.

(** ** Facts about the monad and the event loop *)

Section Facts.

Context {T : Type}.
Variable call : Listener -> Job T -> option JsValue.

Lemma for_of_job (ls : list Listener) (j : Job T) :
  job (for_of call ls j) = j.
Proof.
  induction ls as [|l ls IH]; simpl; [reflexivity|].
  unfold bind, invoke; simpl.
  destruct (call l j); simpl; [reflexivity | exact IH].
Qed.

Lemma fireEvent_job (ty : JobEventType) (j : Job T) :
  job (fireEvent call ty j) = j.
Proof.
  unfold fireEvent, bind, gets; simpl. apply for_of_job.
Qed.

Lemma fireEvent_for_of (ty : JobEventType) (j : Job T) :
  calls (fireEvent call ty j)
  = calls (for_of call (Listeners.get ty (eventListeners j)) j)
  /\ completion (fireEvent call ty j)
     = completion (for_of call (Listeners.get ty (eventListeners j)) j).
Proof.
  unfold fireEvent, bind, gets; simpl. split; reflexivity.
Qed.

(** The loop calls the listeners in the order of the array, each with the
    same job, and stops at the first one that throws. *)
Lemma for_of_cases (ls : list Listener) (j : Job T) :
  (Forall (returns call j) ls
   /\ calls (for_of call ls j) = passed j ls
   /\ completion (for_of call ls j) = Normal tt)
  \/ (exists pre l e post,
         ls = pre ++ l :: post
         /\ Forall (returns call j) pre
         /\ call l j = Some e
         /\ calls (for_of call ls j) = passed j (pre ++ [l])
         /\ completion (for_of call ls j) = Throw e).
Proof.
  induction ls as [|l ls IH].
  - left. repeat split; constructor.
  - simpl. unfold bind, invoke; simpl.
    destruct (call l j) as [e|] eqn:E; simpl.
    + right. exists [], l, e, ls. repeat split; auto.
    + destruct IH as [(Hall & Hc & Hk) | (pre & l' & e & post & -> & Hpre & Hl & Hc & Hk)].
      * left. repeat split.
        -- constructor; assumption.
        -- unfold passed in *. simpl. now rewrite Hc.
        -- revert Hk. destruct (completion _); [intros _; destruct a|]; congruence.
      * right. exists (l :: pre), l', e, post.
        split; [reflexivity|].
        split; [constructor; assumption|].
        split; [assumption|].
        split.
        -- unfold passed in *. simpl. now rewrite Hc.
        -- revert Hk. destruct (completion _); congruence.
Qed.

Lemma for_of_returns (ls : list Listener) (j : Job T) :
  Forall (returns call j) ls ->
  calls (for_of call ls j) = passed j ls
  /\ completion (for_of call ls j) = Normal tt.
Proof.
  intros Hall.
  destruct (for_of_cases ls j) as [(_ & Hc & Hk) | (pre & l & e & post & -> & _ & Hl & _)].
  - split; assumption.
  - apply Forall_app in Hall as [_ Hall]. inversion Hall as [|? ? Hr _]; subst.
    unfold returns in Hr. congruence.
Qed.

(** A plain value is read and converted without a throw. *)
Lemma error_of_Plain (v : JsValue) :
  error_of v = Normal (if ToBoolean (get_message v) then get_message v
                       else JsStr (ToString v)).
Proof.
  unfold error_of; simpl. destruct (ToBoolean (get_message v)); reflexivity.
Qed.

End Facts.

(** ** The lifecycle of a job *)

Ltac method :=
  unfold perform;
  unfold start, setProgress, complete, fail, defer, on,
         bind, eval, gets, modify, ret;
  simpl.

(** The event loop leaves the job as it is. *)
Ltac fired := simpl; rewrite ?fireEvent_job, ?for_of_job; simpl.

(** The two ways the argument of [fail] can go. *)
Ltac fail_arg :=
  match goal with
  | |- context [error_of ?e] => destruct (error_of e) as [?e0|?x0]; simpl
  end.

(** The run of a method that ends with the event loop fires the event. *)
Ltac fires_loop :=
  unfold fires; simpl; rewrite ?for_of_job; apply for_of_cases.

Section Lifecycle.

Context {T : Type}.
Variable call : Listener -> Job T -> option JsValue.

(** The job after [fail] on a plain value. *)
Lemma fail_Plain_job (now : Date) (v : JsValue) (j : Job T) :
  job (fail call now v j)
  = let e := if ToBoolean (get_message v) then get_message v
             else JsStr (ToString v) in
    if retries j >=? attempts j
    then set_state RETRYING (set_progress 0 (set_error e j))
    else set_settledAt (Some now)
           (set_state FAILED (set_progress 0 (set_error e j))).
Proof.
  unfold fail, bind, eval, attempts. cbn [completion job].
  rewrite error_of_Plain. unfold gets, modify. simpl.
  destruct (retries j >=? _attempts j); simpl; now rewrite for_of_job.
Qed.


(** C3. From PENDING or RETRYING, [start] sets the state to RUNNING, adds
    exactly 1 to attempts, sets startedAt to the current time and fires
    the start event: the listeners registered for start are called in the
    order of their registration with the updated job, all of them when
    none throws and those up to the first one that throws otherwise; from
    RUNNING, COMPLETED or FAILED it leaves state, attempts and startedAt
    as they are and calls no listener. *)
Theorem start_transition (now : Date) (j : Job T) :
  let r := start call now j in
  match state j with
  | PENDING | RETRYING =>
      state (job r) = RUNNING
      /\ attempts (job r) = attempts j + 1
      /\ startedAt (job r) = Some now
      /\ fires call (Listeners.start (eventListeners j)) r
  | RUNNING | COMPLETED | FAILED =>
      state (job r) = state j
      /\ attempts (job r) = attempts j
      /\ startedAt (job r) = startedAt j
      /\ calls r = []
      /\ completion r = Normal tt
  end.
Proof.
  cbv zeta. unfold state. method.
  destruct j as [? ? ? ? ? s ? ? ? ? ? ? ls]; destruct s; simpl;
    rewrite ?for_of_job;
    try (repeat split; reflexivity);
    (split; [reflexivity|]); (split; [reflexivity|]);
    (split; [reflexivity|]); fires_loop.
Qed.

(** C4, as the code has it. From any state, [complete x] sets the state to
    COMPLETED, the result to x, progress to 100 and settledAt to the
    current time, so that isSettled is true, leaves the registered
    listeners as they are, and then calls the listeners registered for
    complete in the order of their registration, each with the job so
    updated: all of them, once per registration, when none throws, and
    those up to the first one that throws otherwise.  [on] registers a
    listener behind those registered before. *)
Theorem complete_transition (now : Date) (x : JsValue) (j : Job T)
    (l0 : Listener) :
  let r := complete call now x j in
  let ls := Listeners.complete (eventListeners j) in
  state (job r) = COMPLETED
  /\ result (job r) = x
  /\ progress (job r) = 100
  /\ settledAt (job r) = Some now
  /\ isSettled (job r) = true
  /\ Listeners.complete (eventListeners (job (on EvComplete l0 j)))
     = ls ++ [l0]
  /\ ((Forall (returns call (job r)) ls
       /\ calls r = passed (job r) ls
       /\ completion r = Normal tt)
      \/ (exists pre l e post,
             ls = pre ++ l :: post
             /\ Forall (returns call (job r)) pre
             /\ call l (job r) = Some e
             /\ calls r = passed (job r) (pre ++ [l])
             /\ completion r = Throw e)).
Proof.
  cbv zeta. method. rewrite ?fireEvent_job, ?for_of_job.
  repeat (split; [reflexivity|]).
  match goal with
  | |- context [for_of call _ ?j'] =>
      exact (for_of_cases call (Listeners.complete (eventListeners j)) j')
  end.
Qed.


(** C6. On a RUNNING job [defer] sets the state to PENDING and attempts
    to 0; on a PENDING, COMPLETED, FAILED or RETRYING job it changes
    nothing at all.  It calls no listener and returns. *)
Theorem defer_transition (j : Job T) :
  let r := defer j in
  match state j with
  | RUNNING => state (job r) = PENDING /\ attempts (job r) = 0
  | PENDING | COMPLETED | FAILED | RETRYING => job r = j
  end
  /\ calls r = []
  /\ completion r = Normal tt.
Proof.
  cbv zeta. unfold state. method.
  destruct j as [? ? ? ? ? s ? ? ? ? ? ? ?]; destruct s; simpl;
    repeat split; reflexivity.
Qed.

(** C7. In any state and for any number p, [setProgress p] sets progress
    to the minimum of p and 100, which is p itself whenever p <= 100, below
    0 too; it changes no other field, the state included, and calls no
    listener. *)
Theorem setProgress_effect (p : Z) (j : Job T) :
  let r := setProgress p j in
  progress (job r) = Z.min p 100
  /\ progress (job r) <= 100
  /\ progress (job (setProgress (Z.min p 100) j)) = Z.min p 100
  /\ progress (job (setProgress (- Z.abs p) j)) = - Z.abs p
  /\ job r = set_progress (progress (job r)) j
  /\ (id (job r), queueName (job r), retries (job r), createdAt (job r),
      data (job r), state (job r), result (job r), error (job r),
      attempts (job r), startedAt (job r), settledAt (job r),
      eventListeners (job r))
     = (id j, queueName j, retries j, createdAt j, data j, state j,
        result j, error j, attempts j, startedAt j, settledAt j,
        eventListeners j)
  /\ calls r = []
  /\ completion r = Normal tt.
Proof.
  cbv zeta. method. unfold progress, Math_min; simpl.
  repeat split; try reflexivity.
  - destruct (Z.ltb_spec p 100); lia.
  - destruct (Z.ltb_spec p 100); lia.
  - destruct (Z.ltb_spec (Z.min p 100) 100); lia.
  - destruct (Z.ltb_spec (- Z.abs p) 100); lia.
Qed.


Lemma fireEvent_returns (ty : JobEventType) (j : Job T) :
  Forall (returns call j) (Listeners.get ty (eventListeners j)) ->
  completion (fireEvent call ty j) = Normal tt.
Proof.
  intros H. destruct (fireEvent_for_of call ty j) as [_ ->].
  now apply for_of_returns.
Qed.





(** C10. [defer] on a RUNNING job changes the state to PENDING and
    attempts to 0 and nothing else: startedAt, progress, result, error,
    settledAt, the registered listeners and the fields fixed by the
    constructor keep their values; no listener is called. *)
Theorem defer_frame (j : Job T) :
  state j = RUNNING ->
  let r := defer j in
  state (job r) = PENDING
  /\ attempts (job r) = 0
  /\ (startedAt (job r), progress (job r), result (job r), error (job r),
      settledAt (job r), eventListeners (job r))
     = (startedAt j, progress j, result j, error j, settledAt j,
        eventListeners j)
  /\ (id (job r), queueName (job r), retries (job r), createdAt (job r),
      data (job r))
     = (id j, queueName j, retries j, createdAt j, data j)
  /\ calls r = []
  /\ completion r = Normal tt.
Proof.
  unfold state. intros Hs. cbv zeta. method. rewrite Hs. simpl.
  repeat split; reflexivity.
Qed.

(** Where a call leaves settledAt. *)
Lemma perform_settledAt (now : Date) (op : Op) (j : Job T) :
  settledAt (job (perform call now op j))
  = match op with
    | OpComplete _ => Some now
    | OpFail err =>
        match error_of err with
        | Normal _ =>
            if retries j >=? attempts j then settledAt j else Some now
        | Throw _ => settledAt j
        end
    | _ => settledAt j
    end.
Proof.
  unfold attempts. destruct op; method; try reflexivity.
  - destruct (JobState_eqb (_state j) PENDING || JobState_eqb (_state j) RETRYING);
      fired; reflexivity.
  - fired. reflexivity.
  - fail_arg; [|reflexivity].
    destruct (retries j >=? _attempts j); fired; reflexivity.
  - destruct (JobState_eqb (_state j) RUNNING); reflexivity.
Qed.

Lemma settled_inv_step (now : Date) (op : Op) (j : Job T) :
  negb (is_fail op && JobState_eqb (state j) COMPLETED
        && (retries j >=? attempts j)) = true ->
  settled_inv j -> settled_inv (job (perform call now op j)).
Proof.
  unfold settled_inv, isSettled, state, attempts.
  destruct j as [? ? r ? ? s ? ? ? a ? sa ?]; simpl.
  intros Hord [Hset Hfail].
  destruct op; method.
  - destruct s; fired; simpl in *; split; try assumption;
      try discriminate; try (destruct sa; [discriminate|reflexivity]).
  - split; assumption.
  - fired. split; [reflexivity | discriminate].
  - fail_arg; [|split; assumption].
    destruct (Z.geb_spec r a) as [Hge|Hlt]; fired.
    + split; [|discriminate].
      destruct s; simpl in *; try discriminate; try assumption.
      specialize (Hfail eq_refl). lia.
    + split; [reflexivity | intros _; lia].
  - destruct s; simpl in *; split; try assumption; try discriminate.
  - split; assumption.
Qed.

Lemma settled_inv_run (ops : list (Date * Op)) (j : Job T) :
  orderly call ops j = true ->
  settled_inv j -> settled_inv (run_ops call ops j).
Proof.
  revert j. induction ops as [|[now op] ops IH]; intros j Hord Hinv.
  - exact Hinv.
  - simpl in Hord. apply andb_true_iff in Hord as [Hop Hord].
    simpl. apply IH; [exact Hord|]. now apply settled_inv_step.
Qed.

(** C2, as the code has it. A call sets settledAt, to the current time,
    exactly when it is [complete] or a [fail] that gives FAILED, and no
    call clears it; a [fail] that throws on its argument changes nothing.
    So for a job that starts in PENDING with no settledAt
    and a sequence of calls in which [fail] is never applied to a
    COMPLETED job with retries >= attempts, settledAt is present when the
    state is COMPLETED or FAILED and absent when it is PENDING, RUNNING or
    RETRYING. *)
Theorem settledAt_lifecycle (j : Job T) (ops : list (Date * Op))
    (now : Date) (op : Op) (j' : Job T) :
  state j = PENDING -> settledAt j = None -> orderly call ops j = true ->
  isSettled (run_ops call ops j) = terminal (state (run_ops call ops j))
  /\ settledAt (job (perform call now op j'))
     = match op with
       | OpComplete _ => Some now
       | OpFail err =>
           match error_of err with
           | Normal _ =>
               if retries j' >=? attempts j' then settledAt j'
               else Some now
           | Throw _ => settledAt j'
           end
       | _ => settledAt j'
       end.
Proof.
  intros Hs Hn Hord. split; [|apply perform_settledAt].
  apply (settled_inv_run ops j Hord).
  unfold settled_inv, isSettled. unfold settledAt in Hn.
  rewrite Hn, Hs. split; [reflexivity | discriminate].
Qed.

End Lifecycle.

(** ** Concrete runs *)

Example job2_defaults :
  state job2 = PENDING /\ attempts job2 = 0 /\ progress job2 = 0
  /\ retries job2 = 2 /\ isSettled job2 = false /\ duration 9 job2 = 0.
Proof. repeat split; reflexivity. Qed.

(** A listener that throws makes the call throw, after the job has been
    updated. *)
Example throwing_listener_start :
  let j := job (on EvStart 0%nat job2) in
  let r := start first_throws 4 j in
  completion r = Throw (JsStr "listener failed")
  /\ state (job r) = RUNNING /\ attempts (job r) = 1.
Proof. repeat split; reflexivity. Qed.

(** C2: a job completed on its first attempt and then failed goes to
    RETRYING, and on to RUNNING and PENDING, with the settledAt of its
    completion. *)
Lemma settledAt_stale :
  let j := run_ops quiet
             [(1, OpStart); (2, OpComplete (JsStr "sent"));
              (3, OpFail (JsStr "late"))] job2 in
  state job2 = PENDING /\ settledAt job2 = None
  /\ state j = RETRYING /\ settledAt j = Some 2
  /\ state (run_ops quiet [(4, OpStart)] j) = RUNNING
  /\ settledAt (run_ops quiet [(4, OpStart)] j) = Some 2
  /\ state (run_ops quiet [(4, OpStart); (5, OpDefer)] j) = PENDING
  /\ settledAt (run_ops quiet [(4, OpStart); (5, OpDefer)] j) = Some 2.
Proof. cbv zeta. repeat split; reflexivity. Qed.

Lemma settledAt_lifecycle_witness :
  let ops := [(1, OpStart); (2, OpFail JsUndefined); (3, OpStart);
              (4, OpSetProgress 50); (5, OpComplete (JsStr "sent"))] in
  (state job2 = PENDING /\ settledAt job2 = None
   /\ orderly quiet ops job2 = true)
  /\ isSettled (run_ops quiet ops job2)
     = terminal (state (run_ops quiet ops job2)).
Proof.
  cbv zeta. split.
  - repeat split; reflexivity.
  - apply (settledAt_lifecycle quiet job2 _ 0 OpDefer job2); reflexivity.
Defined.

(** C4: the first of two listeners registered for complete throws, and the
    second one is not called. *)
Lemma complete_skips_listener :
  let r := complete first_throws 7 (JsStr "sent") watched in
  Listeners.complete (eventListeners watched) = [0%nat; 1%nat]
  /\ map fst (calls r) = [0%nat]
  /\ completion r = Throw (JsStr "listener failed").
Proof. cbv zeta. repeat split; reflexivity. Qed.







Lemma defer_frame_witness :
  let j := run_ops quiet [(1, OpStart); (2, OpSetProgress 40)] watched in
  state j = RUNNING
  /\ state (job (defer j)) = PENDING
  /\ attempts (job (defer j)) = 0
  /\ startedAt (job (defer j)) = Some 1
  /\ progress (job (defer j)) = 40.
Proof.
  cbv zeta.
  assert (Hs : state (run_ops quiet [(1, OpStart); (2, OpSetProgress 40)]
                        watched) = RUNNING) by reflexivity.
  split; [exact Hs|].
  destruct (defer_frame _ Hs) as (H1 & H2 & H3 & _).
  split; [exact H1|]. split; [exact H2|].
  split.
  - exact (f_equal (fun t => fst (fst (fst (fst (fst t))))) H3).
  - exact (f_equal (fun t => snd (fst (fst (fst (fst t))))) H3).
Defined.

(** ** Further properties of the class *)

Section Further.

Context {T : Type}.
Variable call : Listener -> Job T -> option JsValue.




Lemma perform_fixed (now : Date) (op : Op) (j : Job T) :
  fixed_fields (job (perform call now op j)) = fixed_fields j.
Proof.
  destruct j as [? ? r ? ? s ? ? ? a ? ? ?]; destruct op; method;
    try reflexivity.
  - destruct s; fired; reflexivity.
  - fired; reflexivity.
  - fail_arg; [|reflexivity]. destruct (r >=? a); fired; reflexivity.
  - destruct s; reflexivity.
Qed.

(** X2. No sequence of calls changes id, queueName, retries, createdAt or
    the payload of a job. *)
Theorem fixed_fields_kept (ops : list (Date * Op)) (j : Job T) :
  fixed_fields (run_ops call ops j) = fixed_fields j.
Proof.
  revert j. induction ops as [|[now op] ops IH]; intros j; simpl.
  - reflexivity.
  - rewrite IH. apply perform_fixed.
Qed.

Lemma perform_listeners (now : Date) (op : Op) (j : Job T) :
  eventListeners (job (perform call now op j))
  = match op with
    | OpOn ty l => Listeners.push ty l (eventListeners j)
    | _ => eventListeners j
    end.
Proof.
  destruct j as [? ? r ? ? s ? ? ? a ? ? ?]; destruct op; method;
    try reflexivity.
  - destruct s; fired; reflexivity.
  - fired; reflexivity.
  - fail_arg; [|reflexivity]. destruct (r >=? a); fired; reflexivity.
  - destruct s; reflexivity.
Qed.

Lemma listeners_by_on_gen (ops : list (Date * Op)) (j1 j2 : Job T) :
  eventListeners j1 = eventListeners j2 ->
  eventListeners (run_ops call ops j1)
  = eventListeners (run_ops call (filter (fun o => is_on (snd o)) ops) j2).
Proof.
  revert j1 j2. induction ops as [|[now op] ops IH]; intros j1 j2 E.
  - exact E.
  - change (run_ops call ((now, op) :: ops) j1)
      with (run_ops call ops (job (perform call now op j1))).
    pose proof (perform_listeners now op j1) as P1.
    pose proof (perform_listeners now op j2) as P2.
    destruct op; cbn [filter snd is_on];
      try (apply IH; rewrite P1; exact E).
    change (run_ops call ((now, OpOn eventType listener) :: ?l) j2)
      with (run_ops call l (job (perform call now (OpOn eventType listener) j2))).
    apply IH. rewrite P1, P2. now rewrite E.
Qed.

Lemma get_push (ty ty' : JobEventType) (l : Listener) (ls : Listeners.t) :
  Listeners.get ty' (Listeners.push ty l ls)
  = Listeners.get ty' ls ++ (if JobEventType_eqb ty ty' then [l] else []).
Proof.
  destruct ty, ty'; simpl; rewrite ?app_nil_r; reflexivity.
Qed.

(** X3. The listeners of a job after a sequence of calls are those its
    calls of [on] alone would leave: no other method adds, removes or
    reorders a listener.  Calls of [on] for one event type put their
    listeners behind those already registered for that type, in the order
    of the calls and with repetitions kept, and leave the listeners of the
    other types as they are. *)
Theorem listeners_by_on (ops : list (Date * Op)) (j : Job T)
    (ty ty' : JobEventType) (l : list (Date * Listener)) :
  eventListeners (run_ops call ops j)
  = eventListeners (run_ops call (filter (fun o => is_on (snd o)) ops) j)
  /\ Listeners.get ty' (eventListeners (run_ops call (registrations ty l) j))
     = Listeners.get ty' (eventListeners j)
       ++ (if JobEventType_eqb ty ty' then map snd l else []).
Proof.
  split; [now apply listeners_by_on_gen|].
  revert j. induction l as [|[t x] l IH]; intros j.
  - simpl. destruct (JobEventType_eqb ty ty'); now rewrite app_nil_r.
  - change (run_ops call (registrations ty ((t, x) :: l)) j)
      with (run_ops call (registrations ty l)
              (job (perform call t (OpOn ty x) j))).
    rewrite IH, perform_listeners, get_push.
    destruct (JobEventType_eqb ty ty'); simpl;
      rewrite <- ?app_assoc; reflexivity.
Qed.

Lemma for_of_calls (ls : list Listener) (j : Job T) :
  Forall (fun c => snd c = j) (calls (for_of call ls j))
  /\ exists rest, ls = map fst (calls (for_of call ls j)) ++ rest.
Proof.
  induction ls as [|l ls [IH1 [rest IH2]]]; simpl.
  - split; [constructor | now exists []].
  - unfold bind, invoke; simpl. destruct (call l j); simpl.
    + split; [repeat constructor | now exists ls].
    + split; [constructor; [reflexivity | exact IH1]|].
      exists rest. now rewrite <- IH2.
Qed.

Lemma for_of_throw (ls : list Listener) (j : Job T) (e : JsValue) :
  completion (for_of call ls j) = Throw e ->
  exists l, In l ls /\ call l j = Some e.
Proof.
  intros H.
  destruct (for_of_cases call ls j)
    as [(_ & _ & Hk) | (pre & l & e' & post & -> & _ & Hl & _ & Hk)].
  - congruence.
  - exists l. split; [apply in_or_app; right; now left|]. congruence.
Qed.

(** X4. Whatever the method and the state, every listener it calls is
    passed the job as the method leaves it, and the listeners called are
    an initial part of the array of the event of the method, in the order
    of the array; [setProgress], [defer] and [on] call none. *)
Theorem calls_discipline (now : Date) (op : Op) (j : Job T) :
  let r := perform call now op j in
  Forall (fun c => snd c = job r) (calls r)
  /\ match event_of op with
     | Some ty =>
         exists rest,
           Listeners.get ty (eventListeners j) = map fst (calls r) ++ rest
     | None => calls r = []
     end.
Proof.
  cbv zeta.
  destruct j as [? ? r ? ? s ? ? ? a ? ? ls]; destruct op; method;
    try (split; [constructor | reflexivity]).
  - destruct s; simpl; rewrite ?for_of_job;
      try (split; [constructor | now exists (Listeners.start ls)]);
      apply for_of_calls.
  - rewrite ?for_of_job. apply for_of_calls.
  - fail_arg; [|split; [constructor | now exists (Listeners.fail ls)]].
    destruct (r >=? a); simpl; rewrite ?for_of_job; apply for_of_calls.
  - destruct s; split; constructor.
Qed.

(** X5. A method throws only what one of the listeners of its event threw
    when it was passed the updated job, or, for [fail], what reading
    [err.message] or [String(err)] threw, in which case the job is
    unchanged and no listener was called. *)
Theorem throw_provenance (now : Date) (op : Op) (j : Job T) (e : JsValue) :
  completion (perform call now op j) = Throw e ->
  (exists ty l,
      event_of op = Some ty
      /\ In l (Listeners.get ty (eventListeners j))
      /\ call l (job (perform call now op j)) = Some e)
  \/ (exists err,
         op = OpFail err
         /\ error_of err = Throw e
         /\ job (perform call now op j) = j
         /\ calls (perform call now op j) = []).
Proof.
  destruct j as [? ? r ? ? s ? ? ? a ? ? ls]; destruct op; method;
    try discriminate.
  - destruct s; simpl; try discriminate; rewrite ?for_of_job; intros H;
      apply for_of_throw in H as (l & Hin & Hl);
      left; exists EvStart, l; repeat split; assumption.
  - rewrite ?for_of_job; intros H.
    apply for_of_throw in H as (l & Hin & Hl).
    left; exists EvComplete, l; repeat split; assumption.
  - destruct (error_of err) as [e0|x0] eqn:E; simpl.
    + destruct (r >=? a); simpl; rewrite ?for_of_job; intros H;
        apply for_of_throw in H as (l & Hin & Hl);
        left; exists EvFail, l; repeat split; assumption.
    + intros H. right. exists err. repeat split; congruence.
  - destruct s; discriminate.
Qed.

Lemma perform_job_any (call' : Listener -> Job T -> option JsValue)
    (now : Date) (op : Op) (j : Job T) :
  job (perform call now op j) = job (perform call' now op j).
Proof.
  destruct j as [? ? r ? ? s ? ? ? a ? ? ?]; destruct op; method;
    try reflexivity.
  - destruct s; fired; reflexivity.
  - fired; reflexivity.
  - fail_arg; [|reflexivity]. destruct (r >=? a); fired; reflexivity.
Qed.

(** X6. The job after a sequence of calls does not depend on what the
    listeners do: every method updates the fields before it calls a
    listener, and a listener that throws undoes nothing. *)
Theorem job_whatever_listeners_do
    (call' : Listener -> Job T -> option JsValue)
    (ops : list (Date * Op)) (j : Job T) :
  run_ops call ops j = run_ops call' ops j.
Proof.
  revert j. induction ops as [|[now op] ops IH]; intros j; simpl.
  - reflexivity.
  - rewrite (perform_job_any call'). apply IH.
Qed.

(** X7. How a state is entered.  A call leaves a job in RUNNING only if it
    was RUNNING or the call is [start] on a PENDING or RETRYING job; in
    PENDING only if it was PENDING or the call is [defer] on a RUNNING
    job; in COMPLETED only if it was COMPLETED or the call is [complete];
    in FAILED only if the call is [fail] with retries < attempts or the
    job was FAILED; in RETRYING only if the call is [fail] with
    retries >= attempts or the job was RETRYING. *)
Theorem state_entry (now : Date) (op : Op) (j : Job T) :
  match state (job (perform call now op j)) with
  | RUNNING =>
      state j = RUNNING
      \/ (op = OpStart /\ (state j = PENDING \/ state j = RETRYING))
  | PENDING => state j = PENDING \/ (op = OpDefer /\ state j = RUNNING)
  | COMPLETED => state j = COMPLETED \/ exists x, op = OpComplete x
  | FAILED =>
      state j = FAILED \/ exists e, op = OpFail e /\ retries j < attempts j
  | RETRYING =>
      state j = RETRYING
      \/ exists e, op = OpFail e /\ attempts j <= retries j
  end.
Proof.
  unfold state, attempts.
  destruct j as [? ? r ? ? s ? ? ? a ? ? ?]; destruct op; method.
  - destruct s; fired; auto.
  - destruct s; auto.
  - fired. right. eauto.
  - fail_arg; [|destruct s; auto].
    destruct (Z.geb_spec r a); fired; right; eexists; split;
      try reflexivity; lia.
  - destruct s; simpl; auto.
  - destruct s; auto.
Qed.

Lemma count_starts_cons (t : Date) (op : Op) (ops : list (Date * Op)) :
  count_starts ((t, op) :: ops)
  = (if is_start op then 1 else 0) + count_starts ops.
Proof.
  unfold count_starts. cbn [filter snd].
  destruct (is_start op); cbn [List.length]; lia.
Qed.

Lemma attempts_step (now : Date) (op : Op) (j : Job T) :
  0 <= attempts j ->
  0 <= attempts (job (perform call now op j))
  /\ attempts (job (perform call now op j))
     <= attempts j + (if is_start op then 1 else 0)
  /\ (is_defer op = false ->
      attempts j <= attempts (job (perform call now op j))).
Proof.
  unfold attempts.
  destruct j as [? ? r ? ? s ? ? ? a ? ? ?]; destruct op; method; intros H.
  - destruct s; fired; repeat split; intros; lia.
  - repeat split; intros; lia.
  - fired. repeat split; intros; lia.
  - fail_arg; [|repeat split; intros; lia].
    destruct (r >=? a); fired; repeat split; intros; lia.
  - destruct s; simpl; repeat split; intros; try discriminate; lia.
  - repeat split; intros; lia.
Qed.

(** X8. Starting from a counter that is not negative, attempts is never
    negative and grows by at most the number of calls of [start]; in a
    sequence without [defer] it never decreases. *)
Theorem attempts_bounded (ops : list (Date * Op)) (j : Job T) :
  0 <= attempts j ->
  0 <= attempts (run_ops call ops j)
  /\ attempts (run_ops call ops j) <= attempts j + count_starts ops
  /\ (existsb (fun o => is_defer (snd o)) ops = false ->
      attempts j <= attempts (run_ops call ops j)).
Proof.
  revert j. induction ops as [|[now op] ops IH]; intros j H.
  - unfold count_starts; simpl. repeat split; intros; lia.
  - destruct (attempts_step now op j H) as (H0 & H1 & H2).
    destruct (IH _ H0) as (I0 & I1 & I2).
    rewrite count_starts_cons.
    change (run_ops call ((now, op) :: ops) j)
      with (run_ops call ops (job (perform call now op j))).
    split; [exact I0|]. split; [lia|].
    cbn [existsb snd]. intros E. apply orb_false_iff in E as [E1 E2].
    specialize (H2 E1). specialize (I2 E2). lia.
Qed.

Lemma failed_step (now : Date) (op : Op) (j : Job T) :
  state j = FAILED -> retries j < attempts j -> is_complete op = false ->
  state (job (perform call now op j)) = FAILED
  /\ attempts (job (perform call now op j)) = attempts j.
Proof.
  unfold state, attempts.
  destruct j as [? ? r ? ? s ? ? ? a ? ? ?]; simpl; intros -> Hlt Hop.
  destruct op; try discriminate; method; try (split; reflexivity).
  fail_arg; [|split; reflexivity].
  destruct (Z.geb_spec r a); [lia|]. fired. split; reflexivity.
Qed.

(** X9. A FAILED job that has used up its retries stays FAILED, with the
    same attempts, under every sequence of calls without [complete]:
    [start], [defer] and further calls of [fail] do not revive it. *)
Theorem failed_is_final (ops : list (Date * Op)) (j : Job T) :
  state j = FAILED -> retries j < attempts j ->
  existsb (fun o => is_complete (snd o)) ops = false ->
  state (run_ops call ops j) = FAILED
  /\ attempts (run_ops call ops j) = attempts j.
Proof.
  revert j. induction ops as [|[now op] ops IH]; intros j Hs Hlt Hops.
  - split; [exact Hs | reflexivity].
  - cbn [existsb snd] in Hops. apply orb_false_iff in Hops as [Hop Hops].
    destruct (failed_step now op j Hs Hlt Hop) as [Hs' Ha'].
    change (run_ops call ((now, op) :: ops) j)
      with (run_ops call ops (job (perform call now op j))).
    assert (Hr : retries (job (perform call now op j)) = retries j).
    { pose proof (perform_fixed now op j) as F. unfold fixed_fields in F.
      congruence. }
    destruct (IH (job (perform call now op j)) Hs') as [I1 I2];
      [lia | exact Hops |].
    split; [exact I1 | lia].
Qed.


(** The job after [start] when it takes effect. *)
Lemma start_job (now : Date) (j : Job T) :
  state j = PENDING \/ state j = RETRYING ->
  job (start call now j)
  = set_attempts (attempts j + 1)
      (set_startedAt (Some now) (set_state RUNNING j)).
Proof.
  unfold state, attempts. intros Hs. method.
  assert (E : JobState_eqb (_state j) PENDING
              || JobState_eqb (_state j) RETRYING = true)
    by (destruct Hs as [-> | ->]; reflexivity).
  rewrite E. fired. reflexivity.
Qed.

(** The job after [complete]. *)
Lemma complete_job (now : Date) (x : JsValue) (j : Job T) :
  job (complete call now x j)
  = set_settledAt (Some now)
      (set_state COMPLETED (set_progress 100 (set_result x j))).
Proof.
  method. now rewrite for_of_job.
Qed.




Lemma progress_step (now : Date) (op : Op) (j : Job T) :
  let j' := job (perform call now op j) in
  (progress j <= 100 -> progress j' <= 100)
  /\ (0 <= progress j ->
      match op with OpSetProgress p => 0 <= p | _ => True end ->
      0 <= progress j').
Proof.
  unfold progress.
  destruct j as [? ? r ? ? s p ? ? a ? ? ?]; destruct op; method.
  - destruct s; fired; split; auto.
  - unfold Math_min. destruct (Z.ltb_spec percent 100); split; intros; lia.
  - fired. split; intros; lia.
  - fail_arg; [|split; auto].
    destruct (r >=? a); fired; split; intros; lia.
  - destruct s; simpl; split; auto.
  - split; auto.
Qed.

(** X12. Progress never gets above 100 through the methods: from a job
    with progress <= 100, every sequence of calls, with any arguments,
    leaves progress <= 100. *)
Theorem progress_capped (ops : list (Date * Op)) (j : Job T) :
  progress j <= 100 -> progress (run_ops call ops j) <= 100.
Proof.
  revert j. induction ops as [|[now op] ops IH]; intros j H.
  - exact H.
  - simpl. apply IH. now apply progress_step.
Qed.

(** X13. Progress gets below 0 only through a negative argument of
    [setProgress]: from a job with progress >= 0, every sequence of calls
    in which [setProgress] has no negative argument leaves
    progress >= 0. *)
Theorem progress_not_negative (ops : list (Date * Op)) (j : Job T) :
  0 <= progress j -> progress_args_nonneg ops = true ->
  0 <= progress (run_ops call ops j).
Proof.
  unfold progress_args_nonneg.
  revert j. induction ops as [|[now op] ops IH]; intros j H Hops.
  - exact H.
  - cbn [forallb snd] in Hops. apply andb_true_iff in Hops as [Hop Hops].
    simpl. apply IH; [|exact Hops].
    apply progress_step; [exact H|].
    destruct op; try exact I. now apply Z.leb_le.
Qed.

Lemma settled_step (now : Date) (op : Op) (j : Job T) :
  let j' := job (perform call now op j) in
  implb (isSettled j) (isSettled j') = true
  /\ (implb (terminal (state j)) (isSettled j) = true ->
      implb (terminal (state j')) (isSettled j') = true).
Proof.
  unfold isSettled, state.
  destruct j as [? ? r ? ? s ? ? ? a ? sa ?]; destruct op; method.
  - destruct s, sa; fired; split; auto.
  - destruct s, sa; split; auto.
  - fired. destruct sa; split; auto.
  - fail_arg; [|destruct s, sa; split; auto].
    destruct (r >=? a); fired; destruct sa; split; auto.
  - destruct s, sa; simpl; split; auto.
  - destruct s, sa; split; auto.
Qed.

(** X14. Settlement is never undone: a job that has a settledAt keeps one
    under every sequence of calls; and if a job is settled whenever it is
    COMPLETED or FAILED, as a PENDING job is, it still is after every
    sequence of calls. *)
Theorem settled_for_good (ops : list (Date * Op)) (j : Job T) :
  implb (terminal (state j)) (isSettled j) = true ->
  implb (isSettled j) (isSettled (run_ops call ops j)) = true
  /\ implb (terminal (state (run_ops call ops j)))
           (isSettled (run_ops call ops j)) = true.
Proof.
  revert j. induction ops as [|[now op] ops IH]; intros j H.
  - simpl. split; [destruct (isSettled j); reflexivity | exact H].
  - destruct (settled_step now op j) as [S1 S2].
    destruct (IH _ (S2 H)) as [I1 I2].
    change (run_ops call ((now, op) :: ops) j)
      with (run_ops call ops (job (perform call now op j))).
    split; [|exact I2].
    destruct (isSettled j); [|reflexivity].
    simpl in S1. rewrite S1 in I1. exact I1.
Qed.

(** X15. The duration of an attempt.  On a PENDING or RETRYING job with no
    settledAt, after [start] at time t1 the duration read at time t is
    t - t1; after [complete] at t2 it is t2 - t1 whenever it is read; after
    [fail] at t2 it is t2 - t1 when the job is FAILED and still t - t1 when
    it is RETRYING. *)
Theorem duration_of_attempt (t t1 t2 : Date) (x e : JsValue) (j : Job T) :
  state j = PENDING \/ state j = RETRYING ->
  settledAt j = None ->
  let j1 := job (start call t1 j) in
  duration t j1 = t - t1
  /\ duration t (job (complete call t2 x j1)) = t2 - t1
  /\ duration t (job (fail call t2 e j1))
     = (if retries j >=? attempts j + 1 then t - t1 else t2 - t1).
Proof.
  intros Hs Hn. cbv zeta.
  rewrite fail_Plain_job, complete_job, (start_job t1 j Hs).
  cbv zeta. unfold settledAt in Hn. unfold duration, attempts.
  destruct j as [? ? r ? ? s ? ? ? a ? sa ?]; simpl in *; subst sa.
  split; [reflexivity|]. split; [reflexivity|].
  destruct (r >=? a + 1); reflexivity.
Qed.

Lemma unstarted_startedAt (now : Date) (op : Op) (j : Job T) :
  is_start op = false ->
  startedAt (job (perform call now op j)) = startedAt j.
Proof.
  unfold startedAt.
  destruct j as [? ? r ? ? s ? ? ? a ? ? ?]; destruct op; method;
    try discriminate; intros _; try reflexivity.
  - fired; reflexivity.
  - fail_arg; [|reflexivity]. destruct (r >=? a); fired; reflexivity.
  - destruct s; reflexivity.
Qed.

(** X16. A job that was never started has duration 0, whenever it is read:
    with no startedAt and no call of [start], the duration is 0 after
    every sequence of calls, [complete] and [fail] included. *)
Theorem duration_unstarted (t : Date) (ops : list (Date * Op)) (j : Job T) :
  startedAt j = None ->
  existsb (fun o => is_start (snd o)) ops = false ->
  duration t (run_ops call ops j) = 0.
Proof.
  revert j. induction ops as [|[now op] ops IH]; intros j H Hops.
  - unfold duration. unfold startedAt in H. simpl. rewrite H. lia.
  - cbn [existsb snd] in Hops. apply orb_false_iff in Hops as [Hop Hops].
    simpl. apply IH; [|exact Hops].
    now rewrite unstarted_startedAt.
Qed.

Lemma timed_weaken (c c' : Date) (j : Job T) :
  c <= c' -> timed c j -> timed c' j.
Proof.
  unfold timed. destruct (startedAt j), (settledAt j); intros; lia.
Qed.

Lemma timed_step (c now : Date) (op : Op) (j : Job T) :
  c <= now ->
  isSettled j = terminal (state j) ->
  timed c j ->
  timed now (job (perform call now op j)).
Proof.
  unfold timed, isSettled, state, startedAt, settledAt.
  destruct j as [? ? r ? ? s ? ? ? a st sa ?]; simpl. intros Hc Hset Ht.
  destruct op; method.
  - destruct s; fired; destruct st, sa; simpl in *; try discriminate; lia.
  - destruct st, sa; lia.
  - fired. destruct st, sa; lia.
  - fail_arg; [|destruct st, sa; lia].
    destruct (r >=? a); fired; destruct st, sa; lia.
  - destruct s; simpl; destruct st, sa; lia.
  - destruct st, sa; lia.
Qed.

Lemma timed_run (c : Date) (ops : list (Date * Op)) (j : Job T) :
  orderly call ops j = true -> chronological c ops = true ->
  settled_inv j -> timed c j ->
  timed (last_time c ops) (run_ops call ops j).
Proof.
  revert c j. induction ops as [|[now op] ops IH]; intros c j Ho Hc Hi Ht.
  - exact Ht.
  - simpl in Ho, Hc.
    apply andb_true_iff in Ho as [Hop Ho].
    apply andb_true_iff in Hc as [Hle Hc]. apply Z.leb_le in Hle.
    simpl. apply IH; try assumption.
    + now apply settled_inv_step.
    + destruct Hi as [Hset _]. now apply (timed_step c).
Qed.

(** X17. Durations are not negative in an orderly life: for a job that
    starts PENDING with neither startedAt nor settledAt, calls made at
    times that do not decrease, with [fail] never applied to a COMPLETED
    job with retries >= attempts, the duration read at any time from the
    last call on is >= 0. *)
Theorem duration_not_negative (c t : Date) (ops : list (Date * Op))
    (j : Job T) :
  state j = PENDING -> startedAt j = None -> settledAt j = None ->
  orderly call ops j = true -> chronological c ops = true ->
  last_time c ops <= t ->
  0 <= duration t (run_ops call ops j).
Proof.
  intros Hs Hst Hse Ho Hc Ht.
  assert (Hi : settled_inv j).
  { unfold settled_inv, isSettled. unfold settledAt in Hse.
    rewrite Hse, Hs. split; [reflexivity | discriminate]. }
  assert (H0 : timed c j) by (unfold timed; now rewrite Hst, Hse).
  pose proof (timed_run c ops j Ho Hc Hi H0) as H.
  unfold timed, startedAt, settledAt in H. unfold duration.
  destruct (_startedAt (run_ops call ops j)),
           (_settledAt (run_ops call ops j)); lia.
Qed.

(** X18. What the firing methods leave alone: [start] keeps progress,
    result, error and settledAt; [complete] keeps error, attempts and
    startedAt; [fail] keeps result, attempts and startedAt.  So a job
    completed after a failure still has the error, and one failed after a
    completion still has the result. *)
Theorem firing_methods_frame (now : Date) (x e : JsValue) (j : Job T) :
  let js := job (start call now j) in
  let jc := job (complete call now x j) in
  let jf := job (fail call now e j) in
  (progress js, result js, error js, settledAt js)
  = (progress j, result j, error j, settledAt j)
  /\ (error jc, attempts jc, startedAt jc)
     = (error j, attempts j, startedAt j)
  /\ (result jf, attempts jf, startedAt jf)
     = (result j, attempts j, startedAt j).
Proof.
  cbv zeta. rewrite fail_Plain_job, complete_job. cbv zeta.
  destruct j as [? ? r ? ? s ? ? ? a ? ? ?].
  split; [method; destruct s; fired; reflexivity|].
  split; [reflexivity|].
  unfold attempts; simpl. destruct (r >=? a); reflexivity.
Qed.



End Further.

(** ** Concrete runs of the further properties *)

Lemma throw_provenance_witness :
  let op := OpComplete (JsStr "sent") in
  let e := JsStr "listener failed" in
  completion (perform first_throws 7 op watched) = Throw e
  /\ ((exists ty l,
          event_of op = Some ty
          /\ In l (Listeners.get ty (eventListeners watched))
          /\ first_throws l (job (perform first_throws 7 op watched))
             = Some e)
      \/ (exists err,
             op = OpFail err
             /\ error_of err = Throw e
             /\ job (perform first_throws 7 op watched) = watched
             /\ calls (perform first_throws 7 op watched) = [])).
Proof.
  cbv zeta.
  assert (H : completion
                (perform first_throws 7 (OpComplete (JsStr "sent")) watched)
              = Throw (JsStr "listener failed")) by reflexivity.
  split; [exact H|].
  exact (throw_provenance first_throws 7 _ watched _ H).
Defined.

Lemma attempts_bounded_witness :
  let ops := [(1, OpStart); (2, OpFail JsUndefined); (3, OpStart);
              (4, OpStart)] in
  (0 <= attempts job2
   /\ existsb (fun o => is_defer (snd o)) ops = false)
  /\ 0 <= attempts (run_ops quiet ops job2)
  /\ attempts (run_ops quiet ops job2) <= attempts job2 + count_starts ops
  /\ attempts job2 <= attempts (run_ops quiet ops job2).
Proof.
  cbv zeta.
  assert (H : 0 <= attempts job2) by (simpl; lia).
  split; [split; [exact H | reflexivity]|].
  destruct (attempts_bounded quiet
              [(1, OpStart); (2, OpFail JsUndefined); (3, OpStart);
               (4, OpStart)] job2 H) as (H1 & H2 & H3).
  split; [exact H1|]. split; [exact H2|]. apply H3. reflexivity.
Defined.

(** The job with two retries after three attempts that failed. *)
Lemma failed_is_final_witness :
  let j := run_ops quiet
             (failing_attempts [(1, 2, JsUndefined); (3, 4, JsUndefined);
                                (5, 6, JsStr "boom")]) job2 in
  let ops := [(7, OpStart); (8, OpDefer); (9, OpFail JsNull);
              (10, OpSetProgress 5)] in
  (state j = FAILED /\ retries j < attempts j
   /\ existsb (fun o => is_complete (snd o)) ops = false)
  /\ state (run_ops quiet ops j) = FAILED
  /\ attempts (run_ops quiet ops j) = attempts j.
Proof.
  cbv zeta. split.
  - split; [reflexivity|]. split; [simpl; lia | reflexivity].
  - apply failed_is_final; [reflexivity | simpl; lia | reflexivity].
Defined.



Lemma progress_capped_witness :
  let ops := [(1, OpStart); (2, OpSetProgress 250); (3, OpSetProgress (-7))] in
  progress job2 <= 100 /\ progress (run_ops quiet ops job2) <= 100.
Proof.
  cbv zeta.
  assert (H : progress job2 <= 100) by (simpl; lia).
  split; [exact H|]. exact (progress_capped quiet _ job2 H).
Defined.

Lemma progress_not_negative_witness :
  let ops := [(1, OpStart); (2, OpSetProgress 250); (3, OpFail JsNull)] in
  (0 <= progress job2 /\ progress_args_nonneg ops = true)
  /\ 0 <= progress (run_ops quiet ops job2).
Proof.
  cbv zeta.
  assert (H : 0 <= progress job2) by (simpl; lia).
  split; [split; [exact H | reflexivity]|].
  apply (progress_not_negative quiet); [exact H | reflexivity].
Defined.

Lemma settled_for_good_witness :
  let ops := [(1, OpStart); (2, OpComplete (JsStr "sent"));
              (3, OpFail (JsStr "late")); (4, OpStart)] in
  implb (terminal (state job2)) (isSettled job2) = true
  /\ implb (isSettled job2) (isSettled (run_ops quiet ops job2)) = true
  /\ implb (terminal (state (run_ops quiet ops job2)))
           (isSettled (run_ops quiet ops job2)) = true.
Proof.
  cbv zeta.
  assert (H : implb (terminal (state job2)) (isSettled job2) = true)
    by reflexivity.
  split; [exact H|]. exact (settled_for_good quiet _ job2 H).
Defined.

Lemma duration_of_attempt_witness :
  ((state job2 = PENDING \/ state job2 = RETRYING) /\ settledAt job2 = None)
  /\ duration 50 (job (start quiet 10 job2)) = 50 - 10
  /\ duration 50 (job (complete quiet 30 (JsStr "sent")
                         (job (start quiet 10 job2)))) = 30 - 10
  /\ duration 50 (job (fail quiet 30 JsUndefined
                         (job (start quiet 10 job2)))) = 50 - 10.
Proof.
  assert (Hs : state job2 = PENDING \/ state job2 = RETRYING)
    by (left; reflexivity).
  assert (Hn : settledAt job2 = None) by reflexivity.
  split; [split; assumption|].
  exact (duration_of_attempt quiet 50 10 30 (JsStr "sent") JsUndefined job2
           Hs Hn).
Defined.

Lemma duration_unstarted_witness :
  let ops := [(1, OpSetProgress 10); (2, OpComplete (JsStr "sent"));
              (3, OpFail JsNull)] in
  (startedAt job2 = None
   /\ existsb (fun o => is_start (snd o)) ops = false)
  /\ duration 99 (run_ops quiet ops job2) = 0.
Proof.
  cbv zeta. split; [split; reflexivity|].
  apply (duration_unstarted quiet 99); reflexivity.
Defined.

Lemma duration_not_negative_witness :
  let ops := [(1, OpStart); (4, OpFail JsUndefined); (4, OpStart);
              (9, OpComplete (JsStr "sent"))] in
  (state job2 = PENDING /\ startedAt job2 = None /\ settledAt job2 = None
   /\ orderly quiet ops job2 = true /\ chronological 0 ops = true
   /\ last_time 0 ops <= 12)
  /\ 0 <= duration 12 (run_ops quiet ops job2).
Proof.
  cbv zeta.
  assert (Ht : last_time 0 [(1, OpStart); (4, OpFail JsUndefined);
                            (4, OpStart); (9, OpComplete (JsStr "sent"))]
               <= 12) by (simpl; lia).
  split; [repeat split; try reflexivity; exact Ht|].
  apply (duration_not_negative quiet 0 12); try reflexivity. exact Ht.
Defined.
